(** * The Titanic validate-and-load routine of [dags/titanic.py]

    A shallow embedding of [validate_and_insert_titanic]: the cells of a
    pandas row as Python scalars, the frame as labelled columns with a dtype
    each, the mutable [stats] dictionary as a record threaded through the
    row loop, and [print], [sys.exit] and the SQLite calls as an explicit
    world that the routine transforms. *)

From Stdlib Require Import ZArith QArith Qpower String Ascii List Lia SpecFloat Sorted.
From stdpp Require Import gmap strings.
Import ListNotations.

Local Open Scope Z_scope.

(** ** Python scalars *)

(** What [row[col]] can evaluate to.  [PyFloat] stands for [float] and for
    its subclass [numpy.float64]; [NpInt] is a numpy integer scalar
    ([numpy.int64]), the class of the cells of a row whose frame has integer
    columns only: it compares like an integer but is not an instance of
    [int].  A missing cell of a parsed file is the float NaN; [PyNone] is
    the explicit null the routine writes into a cleaned row. *)
Inductive scalar : Type :=
| PyNone
| PyBool (b : bool)
| PyInt (n : Z)
| PyFloat (x : spec_float)
| NpInt (n : Z)
| PyStr (s : string).

(** Extended dyadic numbers: the exact value of a numeric scalar,
    [XFin m e] being [m * 2^e]. *)
Inductive xnum : Type :=
| XNaN
| XInf (neg : bool)
| XFin (m e : Z).

Definition xnum_of_float (x : spec_float) : xnum :=
  match x with
  | S754_zero _ => XFin 0 0
  | S754_infinity s => XInf s
  | S754_nan => XNaN
  | S754_finite s m e => XFin (if s then Z.neg m else Z.pos m) e
  end.

(** The numeric reading Python's comparison operators give a scalar
    ([bool] is a subclass of [int]); [None] for operands that are not
    numbers. *)
Definition num_of (v : scalar) : option xnum :=
  match v with
  | PyBool b => Some (XFin (Z.b2z b) 0)
  | PyInt n | NpInt n => Some (XFin n 0)
  | PyFloat x => Some (xnum_of_float x)
  | PyNone | PyStr _ => None
  end.

(** Exact comparison, as Python compares an int with a float; NaN is
    unordered. *)
Definition xcompare (a b : xnum) : option comparison :=
  match a, b with
  | XNaN, _ | _, XNaN => None
  | XInf s1, XInf s2 =>
      Some (match s1, s2 with
            | true, false => Lt
            | false, true => Gt
            | _, _ => Eq
            end)
  | XInf s, XFin _ _ => Some (if s then Lt else Gt)
  | XFin _ _, XInf s => Some (if s then Gt else Lt)
  | XFin m1 e1, XFin m2 e2 =>
      let e := Z.min e1 e2 in
      Some (m1 * 2 ^ (e1 - e) ?= m2 * 2 ^ (e2 - e))
  end.

Definition is_cmp (c : comparison) (o : option comparison) : bool :=
  match o, c with
  | Some Eq, Eq | Some Lt, Lt | Some Gt, Gt => true
  | _, _ => false
  end.

(** [v == w]. Numbers compare by value across classes; a number never
    equals a string or [None]. *)
Definition py_eq (v w : scalar) : bool :=
  match num_of v, num_of w with
  | Some a, Some b => is_cmp Eq (xcompare a b)
  | None, None =>
      match v, w with
      | PyNone, PyNone => true
      | PyStr s, PyStr t => String.eqb s t
      | _, _ => false
      end
  | _, _ => false
  end.

(** [v < w] and [v > w] on numbers.  Python raises [TypeError] when an
    operand is not a number; the routine only orders a value after
    [isinstance] has let it through, see [isinstance_orderable]. *)
Definition py_lt (v w : scalar) : bool :=
  match num_of v, num_of w with
  | Some a, Some b => is_cmp Lt (xcompare a b)
  | _, _ => false
  end.

Definition py_gt (v w : scalar) : bool :=
  match num_of v, num_of w with
  | Some a, Some b => is_cmp Gt (xcompare a b)
  | _, _ => false
  end.

(** [v in l] *)
Definition py_in (v : scalar) (l : list scalar) : bool :=
  existsb (py_eq v) l.

(** [pd.isna(v)] on a scalar *)
Definition isna (v : scalar) : bool :=
  match v with
  | PyNone => true
  | PyFloat S754_nan => true
  | _ => false
  end.

(** [isinstance(v, (int, float))] *)
Definition isinstance_int_float (v : scalar) : bool :=
  match v with
  | PyBool _ | PyInt _ | PyFloat _ => true
  | PyNone | NpInt _ | PyStr _ => false
  end.

(** The float literals [0.0] and [1.0] of the source, and binary64 floats
    used in examples. *)
Definition float_0 : spec_float := S754_zero false.
Definition float_1 : spec_float := S754_finite false 4503599627370496 (-52).
Definition float_of_Z (n : Z) : spec_float :=
  match n with
  | Z0 => S754_zero false
  | Zpos p => S754_finite false p 0
  | Zneg p => S754_finite true p 0
  end.

(** ** Column labels *)

(** Labels are modelled as ASCII strings. *)
Definition is_space (c : ascii) : bool :=
  let n := Z.of_N (N_of_ascii c) in
  ((9 <=? n) && (n <=? 13)) || ((28 <=? n) && (n <=? 32)).

Fixpoint lstrip (s : string) : string :=
  match s with
  | EmptyString => EmptyString
  | String c s' => if is_space c then lstrip s' else s
  end.

Fixpoint rstrip (s : string) : string :=
  match s with
  | EmptyString => EmptyString
  | String c s' =>
      match rstrip s' with
      | EmptyString => if is_space c then EmptyString else String c EmptyString
      | t => String c t
      end
  end.

(** [s.strip()] *)
Definition strip (s : string) : string := rstrip (lstrip s).

Definition lower_ascii (c : ascii) : ascii :=
  let n := N_of_ascii c in
  if ((65 <=? n) && (n <=? 90))%N then ascii_of_N (n + 32) else c.

(** [s.lower()] *)
Fixpoint lower (s : string) : string :=
  match s with
  | EmptyString => EmptyString
  | String c s' => String (lower_ascii c) (lower s')
  end.

(** ** Frames, rows and statistics *)

Inductive dtype : Type := int64 | float64 | bool_ | object_.

(** [pd.api.types.is_numeric_dtype]: every dtype a parsed column can have
    is numeric ([bool] included) except [object], the dtype of text. *)
Definition is_numeric_dtype (d : dtype) : bool :=
  match d with
  | object_ => false
  | int64 | float64 | bool_ => true
  end.

Record Column : Type := { label : string; col_dtype : dtype }.

(** A frame as [pd.read_csv] returns it: the header, and one list of cells
    per record under the default index 0, 1, 2, ...  A cell holds the scalar
    that [row[col]] yields inside [df.iterrows()].  Labels are taken to be
    distinct once stripped, as they are in a parsed file. *)
Record DataFrame : Type := {
  columns : list Column;
  records : list (list scalar)
}.

(** A row ([pd.Series]): cells under their labels, in column order. *)
Definition Series : Type := list (string * scalar).

Definition NaN : scalar := PyFloat S754_nan.

(** [len(df)] *)
Definition len_df (df : DataFrame) : Z := Z.of_nat (length (records df)).

(** [df.columns = df.columns.str.strip()] *)
Definition strip_columns (df : DataFrame) : DataFrame :=
  {| columns := map (fun c => {| label := strip (label c);
                                 col_dtype := col_dtype c |}) (columns df);
     records := records df |}.

Definition labels (df : DataFrame) : list string := map label (columns df).

(** [df[col].dtype]; [None] is the [KeyError] of an absent label. *)
Definition dtype_of (df : DataFrame) (col : string) : option dtype :=
  col_dtype <$> find (fun c => String.eqb (label c) col) (columns df).

(** The cells of one record under the frame's labels; the parser fills a
    short record with NaN. *)
Fixpoint label_cells (ls : list string) (cells : list scalar) : Series :=
  match ls with
  | [] => []
  | l :: ls' =>
      match cells with
      | [] => (l, NaN) :: label_cells ls' []
      | c :: cells' => (l, c) :: label_cells ls' cells'
      end
  end.

Fixpoint enumerate_from {A : Type} (i : Z) (l : list A) : list (Z * A) :=
  match l with
  | [] => []
  | x :: l' => (i, x) :: enumerate_from (i + 1) l'
  end.

(** [df.iterrows()]: index and row, in input order. *)
Definition iterrows (df : DataFrame) : list (Z * Series) :=
  enumerate_from 0 (map (label_cells (labels df)) (records df)).

(** [row[col]] *)
Fixpoint series_get (row : Series) (col : string) : scalar :=
  match row with
  | [] => NaN
  | (l, v) :: row' => if String.eqb l col then v else series_get row' col
  end.

(** [row[col] = v] on the copy of a row.  A row of float dtype keeps an
    assigned [None] as NaN; both are null to [pd.isna] and to the table. *)
Fixpoint series_set (row : Series) (col : string) (v : scalar) : Series :=
  match row with
  | [] => [(col, v)]
  | (l, x) :: row' =>
      if String.eqb l col then (l, v) :: row'
      else (l, x) :: series_set row' col v
  end.

(** The two diagnostics of the source.  The f-strings interpolate the row
    number and the offending value; the text around them is fixed, so a
    diagnostic is kept as the pair it is built from. *)
Inductive warning : Type :=
| InvalidSurvived (row_num : Z) (survived_val : scalar)
| InvalidAge (row_num : Z) (age_val : scalar).


(** The [stats] dictionary. *)
Record Stats : Type := {
  total_rows : Z;
  inserted_rows : Z;
  skipped_rows : Z;
  warnings : list warning
}.

Definition stats0 : Stats :=
  {| total_rows := 0; inserted_rows := 0; skipped_rows := 0; warnings := [] |}.

Definition set_total_rows (n : Z) (st : Stats) : Stats :=
  {| total_rows := n; inserted_rows := inserted_rows st;
     skipped_rows := skipped_rows st; warnings := warnings st |}.

Definition set_inserted_rows (n : Z) (st : Stats) : Stats :=
  {| total_rows := total_rows st; inserted_rows := n;
     skipped_rows := skipped_rows st; warnings := warnings st |}.

(** [stats['warnings'].append(w)] *)
Definition append_warning (w : warning) (st : Stats) : Stats :=
  {| total_rows := total_rows st; inserted_rows := inserted_rows st;
     skipped_rows := skipped_rows st; warnings := warnings st ++ [w] |}.

(** [stats['skipped_rows'] += 1] *)
Definition incr_skipped_rows (st : Stats) : Stats :=
  {| total_rows := total_rows st; inserted_rows := inserted_rows st;
     skipped_rows := skipped_rows st + 1; warnings := warnings st |}.

(** ** The world: standard output and the database connection *)

Inductive message : Type :=
| MsgLoaded (n : Z) (csv_path : string)
| MsgLoadError (e : string)
| MsgMissingColumns (missing_cols : list string)
| MsgAvailableColumns (cols : list string)
| MsgSchemaOk
| MsgSurvivedNotNumeric (d : dtype)
| MsgAgeNotNumeric (d : dtype)
| MsgTypesOk
| MsgWarning (w : warning)
| MsgValidationComplete
| MsgValidRows (n : Z)
| MsgSkippedRows (n : Z)
| MsgNoValidRows
| MsgInserted (n : Z) (db_path table_name : string)
| MsgInsertError (e : string).

Inductive db_call : Type :=
| GetConn (sqlite_conn_id : string)
| ToSql (table_name : string) (rows : list Series)
| Commit.

Record World : Type := {
  stdout : list message;
  db_calls : list db_call
}.

Definition world0 : World := {| stdout := []; db_calls := [] |}.

(** The world after more lines were printed, and after more calls were made
    on the connection. *)
Definition emit (ms : list message) (w : World) : World :=
  {| stdout := stdout w ++ ms; db_calls := db_calls w |}.

Definition log_calls (cs : list db_call) (w : World) : World :=
  {| stdout := stdout w; db_calls := db_calls w ++ cs |}.

(** How a Python call ends: it returns, it leaves through [sys.exit], or it
    raises an exception. *)
Inductive result (A : Type) : Type :=
| Returned (a : A)
| SysExit (code : Z)
| Raised (exc : string).
Arguments Returned {A} a.
Arguments SysExit {A} code.
Arguments Raised {A} exc.

Definition M (A : Type) : Type := World -> result A * World.

Definition ret {A : Type} (a : A) : M A := fun w => (Returned a, w).

Definition bind {A B : Type} (m : M A) (k : A -> M B) : M B :=
  fun w =>
    match m w with
    | (Returned a, w') => k a w'
    | (SysExit c, w') => (SysExit c, w')
    | (Raised e, w') => (Raised e, w')
    end.

Declare Scope py_scope.
Delimit Scope py_scope with py.
Notation "'let*' x ':=' m 'in' k" := (bind m (fun x => k))
  (at level 10, x pattern, m at level 100, k at level 200) : py_scope.
Notation "m ;;; k" := (bind m (fun _ => k))
  (at level 100, right associativity) : py_scope.

Definition print (m : message) : M unit :=
  fun w => (Returned tt, emit [m] w).

Definition sys_exit {A : Type} (code : Z) : M A := fun w => (SysExit code, w).

Definition raise {A : Type} (exc : string) : M A := fun w => (Raised exc, w).

(** [try: body except Exception as e: handler(e)]. [SystemExit] is not an
    [Exception] and passes through. *)
Definition try_except {A : Type} (body : M A) (handler : string -> M A) : M A :=
  fun w =>
    match body w with
    | (Raised e, w') => handler e w'
    | r => r
    end.

(** [for x in xs: acc = body(acc, x)] *)
Fixpoint for_each {X S : Type} (body : S -> X -> M S) (xs : list X) (acc : S) : M S :=
  match xs with
  | [] => ret acc
  | x :: xs' => bind (body acc x) (for_each body xs')
  end.

(** [len(l)] *)
Definition len {A : Type} (l : list A) : Z := Z.of_nat (length l).

(** [k in d] and [d[k]] on a dictionary *)
Definition dict_contains (d : gmap string string) (k : string) : bool :=
  match d !! k with
  | Some _ => true
  | None => false
  end.

Definition dict_get (d : gmap string string) (k : string) : M string :=
  match d !! k with
  | Some v => ret v
  | None => raise "KeyError"
  end.

(** [{col.lower(): col for col in cols}]: a later label replaces an earlier
    one with the same lowercase form. *)
Definition build_column_map (cols : list string) : gmap string string :=
  fold_left (fun m col => <[lower col := col]> m) cols ∅.

Definition required_cols : list string := ["age"; "survived"]%string.

(** [[col for col in required_cols if col not in column_map]] *)
Definition missing_cols_of (column_map : gmap string string) : list string :=
  List.filter (fun col => negb (dict_contains column_map col)) required_cols.

(** The list literal [[0, 1, 0.0, 1.0]] *)
Definition survived_values : list scalar :=
  [PyInt 0; PyInt 1; PyFloat float_0; PyFloat float_1].

(** The test of line 85 and the test of line 97, on a value that is not
    missing. *)
Definition survived_violation (v : scalar) : bool :=
  negb (py_in v survived_values).

Definition age_violation (v : scalar) : bool :=
  negb (isinstance_int_float v) || py_lt v (PyInt 0) || py_gt v (PyInt 120).

(** Lines 81-90: the Survived branch of the loop body, on the local
    variables it reads and writes. *)
Definition validate_survived (row_num : Z) (survived_val : scalar)
    (stats : Stats) (skip_row : bool) : M (scalar * Stats * bool) :=
  if isna survived_val then ret (PyNone, stats, skip_row)
  else if survived_violation survived_val then
    let warning := InvalidSurvived row_num survived_val in
    (print (MsgWarning warning) ;;;
     let stats := append_warning warning stats in
     let stats := incr_skipped_rows stats in
     ret (survived_val, stats, true))%py
  else ret (survived_val, stats, skip_row).

(** Lines 93-102: the Age branch. *)
Definition validate_age (row_num : Z) (age_val : scalar)
    (stats : Stats) (skip_row : bool) : M (scalar * Stats * bool) :=
  if isna age_val then ret (PyNone, stats, skip_row)
  else if age_violation age_val then
    let warning := InvalidAge row_num age_val in
    (print (MsgWarning warning) ;;;
     let stats := append_warning warning stats in
     let stats := incr_skipped_rows stats in
     ret (age_val, stats, true))%py
  else ret (age_val, stats, skip_row).

(** Lines 76-109: one iteration. The accumulator is the pair of the two
    objects the loop mutates, [stats] and [valid_rows]. *)
Definition loop_body (survived_col age_col : string)
    (acc : Stats * list Series) (ir : Z * Series) : M (Stats * list Series) :=
  let '(stats, valid_rows) := acc in
  let '(idx, row) := ir in
  let skip_row := false in
  let row_num := idx + 2 in
  (let* (survived_val, stats, skip_row) :=
     validate_survived row_num (series_get row survived_col) stats skip_row in
   let* (age_val, stats, skip_row) :=
     validate_age row_num (series_get row age_col) stats skip_row in
   if negb skip_row then
     let cleaned_row := row in
     let cleaned_row := series_set cleaned_row survived_col survived_val in
     let cleaned_row := series_set cleaned_row age_col age_val in
     ret (stats, valid_rows ++ [cleaned_row])
   else ret (stats, valid_rows))%py.

Section Routine.

(** The two collaborators: [pd.read_csv], which returns a frame or raises
    ([inl e]), and the SQLite connection, each call to which succeeds or
    raises ([Some e]). *)
Variable read_csv : string -> string + DataFrame.
Variable db_fault : db_call -> option string.

Definition call_read_csv (csv_path : string) : M DataFrame :=
  match read_csv csv_path with
  | inl e => raise e
  | inr df => ret df
  end.

Definition call_db (c : db_call) : M unit :=
  fun w =>
    let w' := log_calls [c] w in
    match db_fault c with
    | Some e => (Raised e, w')
    | None => (Returned tt, w')
    end.

(** [df[col].dtype] *)
Definition column_dtype (df : DataFrame) (col : string) : M dtype :=
  match dtype_of df col with
  | Some d => ret d
  | None => raise "KeyError"
  end.

(** Lines 31-37: load the file, or report and leave. *)
Definition load_csv (csv_path : string) (stats : Stats) : M (DataFrame * Stats) :=
  (try_except
     (let* df := call_read_csv csv_path in
      let stats := set_total_rows (len_df df) stats in
      print (MsgLoaded (total_rows stats) csv_path) ;;;
      ret (df, stats))
     (fun e => print (MsgLoadError e) ;;; sys_exit 1))%py.

(** Lines 123-134: append the valid rows to the table, or report and
    leave. *)
Definition insert_valid_rows (db_path table_name : string)
    (valid_rows : list Series) (stats : Stats) : M Stats :=
  (try_except
     (call_db (GetConn "my_sqlite_conn") ;;;
      call_db (ToSql table_name valid_rows) ;;;
      call_db Commit ;;;
      let stats := set_inserted_rows (len valid_rows) stats in
      print (MsgInserted (inserted_rows stats) db_path table_name) ;;;
      ret stats)
     (fun e => print (MsgInsertError e) ;;; sys_exit 1))%py.

Definition validate_and_insert_titanic
    (csv_path db_path table_name : string) : M Stats :=
  (let stats := stats0 in
   let* (df, stats) := load_csv csv_path stats in
   let df := strip_columns df in
   let column_map := build_column_map (labels df) in
   let missing_cols := missing_cols_of column_map in
   match missing_cols with
   | _ :: _ =>
       print (MsgMissingColumns missing_cols) ;;;
       print (MsgAvailableColumns (labels df)) ;;;
       sys_exit 1
   | [] =>
       print MsgSchemaOk ;;;
       let* age_col := dict_get column_map "age" in
       let* survived_col := dict_get column_map "survived" in
       let* survived_dtype := column_dtype df survived_col in
       if negb (is_numeric_dtype survived_dtype) then
         print (MsgSurvivedNotNumeric survived_dtype) ;;; sys_exit 1
       else
       let* age_dtype := column_dtype df age_col in
       if negb (is_numeric_dtype age_dtype) then
         print (MsgAgeNotNumeric age_dtype) ;;; sys_exit 1
       else
       print MsgTypesOk ;;;
       let* (stats, valid_rows) :=
         for_each (loop_body survived_col age_col) (iterrows df) (stats, []) in
       print MsgValidationComplete ;;;
       print (MsgValidRows (len valid_rows)) ;;;
       print (MsgSkippedRows (skipped_rows stats)) ;;;
       if len valid_rows =? 0 then
         print MsgNoValidRows ;;; sys_exit 1
       else
       let* stats := insert_valid_rows db_path table_name valid_rows stats in
       ret stats
   end)%py.

End Routine.

(** ** What one row contributes *)

(** These summarise the loop body; [loop_body_spec] below proves that the
    body computes exactly them. *)

Definition record_warnings (ws : list warning) (st : Stats) : Stats :=
  {| total_rows := total_rows st; inserted_rows := inserted_rows st;
     skipped_rows := skipped_rows st + len ws;
     warnings := warnings st ++ ws |}.

(** A field is violated when its value is present and fails its test. *)
Definition field_violated (test : scalar -> bool) (v : scalar) : bool :=
  negb (isna v) && test v.

Definition survived_warnings (row_num : Z) (v : scalar) : list warning :=
  if field_violated survived_violation v then [InvalidSurvived row_num v] else [].

Definition age_warnings (row_num : Z) (v : scalar) : list warning :=
  if field_violated age_violation v then [InvalidAge row_num v] else [].

Definition row_warnings (survived_col age_col : string) (ir : Z * Series)
    : list warning :=
  survived_warnings (fst ir + 2) (series_get (snd ir) survived_col) ++
  age_warnings (fst ir + 2) (series_get (snd ir) age_col).

(** The final value of [skip_row]. *)
Definition row_rejected (survived_col age_col : string) (row : Series) : bool :=
  field_violated survived_violation (series_get row survived_col) ||
  field_violated age_violation (series_get row age_col).

(** The value a field has in the cleaned row. *)
Definition clean (v : scalar) : scalar := if isna v then PyNone else v.

Definition cleaned_row (survived_col age_col : string) (row : Series) : Series :=
  series_set
    (series_set row survived_col (clean (series_get row survived_col)))
    age_col (clean (series_get row age_col)).

Definition row_valid (survived_col age_col : string) (ir : Z * Series)
    : list Series :=
  if row_rejected survived_col age_col (snd ir) then []
  else [cleaned_row survived_col age_col (snd ir)].

(** The invariant tying the two things the loop records about a
    violation. *)
Definition stats_inv (st : Stats) : Prop := len (warnings st) = skipped_rows st.

(** ** The exact value of a number *)

Definition xval (a : xnum) : option Q :=
  match a with
  | XFin m e => Some (inject_Z m * Qpower 2 e)%Q
  | XNaN | XInf _ => None
  end.

(** [has_value v q]: the scalar [v] is a finite number whose value is [q],
    whatever its class. *)
Definition has_value (v : scalar) (q : Q) : Prop :=
  exists a q', num_of v = Some a /\ xval a = Some q' /\ (q' == q)%Q.

(** ** Required columns, in the words of the schema *)

(** A required name is present when some header label equals it once
    stripped and lowercased. *)
Definition column_present (df : DataFrame) (name : string) : bool :=
  existsb (fun l => String.eqb (lower (strip l)) name) (labels df).

Definition absent_columns (df : DataFrame) : list string :=
  List.filter (fun name => negb (column_present df name)) required_cols.

(** ** The stages of a run, read off the input *)

(** The dictionary of line 42 for a loaded frame, and the labels the two
    required names resolve to (lines 56-57). *)
Definition column_map_of (df : DataFrame) : gmap string string :=
  build_column_map (labels (strip_columns df)).

Definition bound (df : DataFrame) (survived_col age_col : string) : Prop :=
  column_map_of df !! "survived"%string = Some survived_col /\
  column_map_of df !! "age"%string = Some age_col.

(** The test of lines 62 and 67 on a resolved column. *)
Definition numeric_column (df : DataFrame) (col : string) : bool :=
  match dtype_of (strip_columns df) col with
  | Some d => is_numeric_dtype d
  | None => false
  end.

(** The diagnostics and the cleaned rows of a whole frame, in row order. *)
Definition frame_warnings (df : DataFrame) (survived_col age_col : string)
    : list warning :=
  flat_map (row_warnings survived_col age_col) (iterrows (strip_columns df)).

Definition accepted_rows (df : DataFrame) (survived_col age_col : string)
    : list Series :=
  flat_map (row_valid survived_col age_col) (iterrows (strip_columns df)).

(** The rows of a frame whose [skip_row] flag ends up set. *)
Definition rejected_rows (df : DataFrame) (survived_col age_col : string)
    : list (Z * Series) :=
  List.filter (fun ir => row_rejected survived_col age_col (snd ir))
    (iterrows (strip_columns df)).

(** What a run prints up to the end of the row loop (lines 34-113). *)
Definition validation_output (csv_path : string) (df : DataFrame)
    (survived_col age_col : string) : list message :=
  [MsgLoaded (len_df df) csv_path; MsgSchemaOk; MsgTypesOk] ++
  map MsgWarning (frame_warnings df survived_col age_col) ++
  [MsgValidationComplete;
   MsgValidRows (len (accepted_rows df survived_col age_col));
   MsgSkippedRows (len (frame_warnings df survived_col age_col))].

Section Outcomes.

Variable read_csv : string -> string + DataFrame.
Variable db_fault : db_call -> option string.

Definition no_fault (c : db_call) : bool :=
  match db_fault c with
  | None => true
  | Some _ => false
  end.

(** The three calls of the insertion block all succeed. *)
Definition sink_ok (table_name : string) (rows : list Series) : bool :=
  no_fault (GetConn "my_sqlite_conn") &&
  no_fault (ToSql table_name rows) &&
  no_fault Commit.

(** The five fatal conditions, each with the stage it arises at. *)
Inductive Fatal (csv_path table_name : string) : Prop :=
| LoadFailure e :
    read_csv csv_path = inl e ->
    Fatal csv_path table_name
| MissingColumns df :
    read_csv csv_path = inr df ->
    absent_columns df <> [] ->
    Fatal csv_path table_name
| WrongColumnType df sc ac :
    read_csv csv_path = inr df ->
    bound df sc ac ->
    numeric_column df sc = false \/ numeric_column df ac = false ->
    Fatal csv_path table_name
| EmptyAccepted df sc ac :
    read_csv csv_path = inr df ->
    bound df sc ac ->
    numeric_column df sc = true ->
    numeric_column df ac = true ->
    accepted_rows df sc ac = [] ->
    Fatal csv_path table_name
| InsertFailure df sc ac :
    read_csv csv_path = inr df ->
    bound df sc ac ->
    numeric_column df sc = true ->
    numeric_column df ac = true ->
    accepted_rows df sc ac <> [] ->
    sink_ok table_name (accepted_rows df sc ac) = false ->
    Fatal csv_path table_name.

(** Full success, and the statistics it yields. *)
Definition Success (csv_path table_name : string) (st : Stats) : Prop :=
  exists df sc ac,
    read_csv csv_path = inr df /\
    bound df sc ac /\
    numeric_column df sc = true /\
    numeric_column df ac = true /\
    accepted_rows df sc ac <> [] /\
    sink_ok table_name (accepted_rows df sc ac) = true /\
    st = {| total_rows := len_df df;
            inserted_rows := len (accepted_rows df sc ac);
            skipped_rows := len (frame_warnings df sc ac);
            warnings := frame_warnings df sc ac |}.

End Outcomes.

(** ** Sample inputs *)

Definition mk_col (l : string) (d : dtype) : Column :=
  {| label := l; col_dtype := d |}.

(** A reader that finds the given frame, and a connection that never fails
    or that fails on commit. *)
Definition reads (df : DataFrame) : string -> string + DataFrame :=
  fun _ => inr df.
Definition db_sound : db_call -> option string := fun _ => None.

(** A row that breaks both rules. *)
Definition row_two_faults : Series :=
  [("Name", PyStr "B"); ("Age", PyInt (-5)); ("Survived", PyInt 2)]%string.

(** A row with no Survived value. *)
Definition row_no_survived : Series :=
  [("Name", PyStr "C"); ("Age", PyInt 30); ("Survived", NaN)]%string.


(** The example of the specification with a fifth record that breaks both
    rules; the header has blanks and mixed case.
    [name, Age ,SURVIVED / A,29,1 / B,-5,0 / C,,1 / D,30,2 / E,130,2] *)
Definition frame_example : DataFrame :=
  {| columns := [mk_col "name" object_; mk_col " Age " float64;
                 mk_col "SURVIVED" int64]%string;
     records := [[PyStr "A"; PyFloat (float_of_Z 29); PyInt 1];
                 [PyStr "B"; PyFloat (float_of_Z (-5)); PyInt 0];
                 [PyStr "C"; NaN; PyInt 1];
                 [PyStr "D"; PyFloat (float_of_Z 30); PyInt 2];
                 [PyStr "E"; PyFloat (float_of_Z 130); PyInt 2]] |}.

(** [Age,Survived / 120,1 / 0,0]: integer columns only, so every cell of a
    row is a numpy integer. *)
Definition frame_integers : DataFrame :=
  {| columns := [mk_col "Age" int64; mk_col "Survived" int64]%string;
     records := [[NpInt 120; NpInt 1]; [NpInt 0; NpInt 0]] |}.


(** [Name,Age,Survived / A,121,1 / B,-1,0]: every row out of range. *)
Definition frame_all_rejected : DataFrame :=
  {| columns := [mk_col "Name" object_; mk_col "Age" int64;
                 mk_col "Survived" int64]%string;
     records := [[PyStr "A"; PyInt 121; PyInt 1];
                 [PyStr "B"; PyInt (-1); PyInt 0]] |}.

(** ** More sample inputs *)

(** A row is flagged by both rules. *)
Definition both_violated (survived_col age_col : string) (row : Series) : bool :=
  field_violated survived_violation (series_get row survived_col) &&
  field_violated age_violation (series_get row age_col).



(** A frame whose header names the age column three times over.
    [age, AGE ,Survived,Age / x,y,1,40] *)
Definition frame_three_ages : DataFrame :=
  {| columns := [mk_col "age" object_; mk_col " AGE " object_;
                 mk_col "Survived" int64; mk_col "Age" int64]%string;
     records := [[PyStr "x"; PyStr "y"; PyInt 1; PyInt 40]] |}.


Definition db_to_sql_fails : db_call -> option string :=
  fun c => match c with
           | ToSql _ _ => Some "table titanic has no column named Name"%string
           | _ => None
           end.

(** * Properties *)

(** ** Bookkeeping lemmas *)

Lemma emit_nil w : emit [] w = w.
Proof. destruct w; unfold emit; simpl. by rewrite app_nil_r. Qed.

Lemma emit_emit a b w : emit b (emit a w) = emit (a ++ b) w.
Proof. unfold emit; simpl. by rewrite app_assoc. Qed.

Lemma len_app {A} (l k : list A) : len (l ++ k) = len l + len k.
Proof. unfold len. rewrite length_app. lia. Qed.

Lemma record_warnings_nil st : record_warnings [] st = st.
Proof.
  destruct st; unfold record_warnings, len; simpl.
  rewrite app_nil_r. f_equal. lia.
Qed.

Lemma record_warnings_app a b st :
  record_warnings b (record_warnings a st) = record_warnings (a ++ b) st.
Proof.
  unfold record_warnings; simpl. rewrite len_app, app_assoc. f_equal. lia.
Qed.

Lemma validate_survived_spec row_num v st skip w :
  validate_survived row_num v st skip w =
  (Returned (clean v, record_warnings (survived_warnings row_num v) st,
             skip || field_violated survived_violation v),
   emit (map MsgWarning (survived_warnings row_num v)) w).
Proof.
  unfold validate_survived, survived_warnings, field_violated, clean.
  destruct (isna v); simpl.
  - by rewrite record_warnings_nil, emit_nil, orb_false_r.
  - destruct (survived_violation v); simpl.
    + unfold bind, print, ret; simpl. by rewrite orb_true_r.
    + by rewrite record_warnings_nil, emit_nil, orb_false_r.
Qed.

Lemma validate_age_spec row_num v st skip w :
  validate_age row_num v st skip w =
  (Returned (clean v, record_warnings (age_warnings row_num v) st,
             skip || field_violated age_violation v),
   emit (map MsgWarning (age_warnings row_num v)) w).
Proof.
  unfold validate_age, age_warnings, field_violated, clean.
  destruct (isna v); simpl.
  - by rewrite record_warnings_nil, emit_nil, orb_false_r.
  - destruct (age_violation v); simpl.
    + unfold bind, print, ret; simpl. by rewrite orb_true_r.
    + by rewrite record_warnings_nil, emit_nil, orb_false_r.
Qed.

Lemma loop_body_spec sc ac st vr ir w :
  loop_body sc ac (st, vr) ir w =
  (Returned (record_warnings (row_warnings sc ac ir) st,
             vr ++ row_valid sc ac ir),
   emit (map MsgWarning (row_warnings sc ac ir)) w).
Proof.
  destruct ir as [idx row].
  unfold loop_body, bind. rewrite validate_survived_spec.
  rewrite validate_age_spec. simpl.
  unfold row_warnings, row_valid, row_rejected; simpl.
  rewrite record_warnings_app, emit_emit, <- map_app.
  destruct (field_violated survived_violation _ || field_violated age_violation _);
    simpl; unfold ret; [by rewrite app_nil_r | reflexivity].
Qed.

Lemma for_each_loop_body sc ac rows st vr w :
  for_each (loop_body sc ac) rows (st, vr) w =
  (Returned (record_warnings (flat_map (row_warnings sc ac) rows) st,
             vr ++ flat_map (row_valid sc ac) rows),
   emit (map MsgWarning (flat_map (row_warnings sc ac) rows)) w).
Proof.
  revert st vr w. induction rows as [|ir rows IH]; intros st vr w;
    cbn [for_each flat_map].
  - unfold ret. simpl. by rewrite record_warnings_nil, emit_nil, app_nil_r.
  - unfold bind. rewrite loop_body_spec, IH.
    by rewrite record_warnings_app, emit_emit, <- map_app, <- app_assoc.
Qed.

(** ** Comparisons are exact *)

Lemma two_power_pos e : (0 < 2 ^ e)%Q.
Proof. by apply Qpower_0_lt. Qed.

Lemma scale_value m k e :
  0 <= k -> (inject_Z (m * 2 ^ k) * 2 ^ e == inject_Z m * 2 ^ (k + e))%Q.
Proof.
  intros Hk. rewrite inject_Z_mult, Zpower_Qpower by done.
  rewrite Qpower_plus by done. by rewrite Qmult_assoc.
Qed.

Lemma Zcompare_scaled a b (c : Q) :
  (0 < c)%Q -> (a ?= b) = (inject_Z a * c ?= inject_Z b * c)%Q.
Proof.
  intros Hc. destruct (Z.compare_spec a b) as [->|Hlt|Hgt]; symmetry.
  - by apply Qeq_alt.
  - apply Qlt_alt, Qmult_lt_compat_r; [done|]. by rewrite <- Zlt_Qlt.
  - apply Qgt_alt, Qmult_lt_compat_r; [done|]. by rewrite <- Zlt_Qlt.
Qed.

Lemma xcompare_fin m1 e1 m2 e2 :
  xcompare (XFin m1 e1) (XFin m2 e2) =
  Some (inject_Z m1 * 2 ^ e1 ?= inject_Z m2 * 2 ^ e2)%Q.
Proof.
  unfold xcompare. f_equal. set (e := Z.min e1 e2).
  rewrite (Zcompare_scaled _ _ (2 ^ e)%Q) by apply two_power_pos.
  rewrite !scale_value by lia.
  by replace (e1 - e + e) with e1 by lia; replace (e2 - e + e) with e2 by lia.
Qed.

Lemma xcompare_int a q n :
  xval a = Some q -> xcompare a (XFin n 0) = Some (q ?= inject_Z n)%Q.
Proof.
  destruct a as [| |m e]; simpl; try done. intros [= <-].
  change (Some (m * 2 ^ (e - Z.min e 0) ?= n * 2 ^ (0 - Z.min e 0)))
    with (xcompare (XFin m e) (XFin n 0)).
  rewrite xcompare_fin. f_equal. apply Qcompare_comp; [reflexivity|].
  simpl. apply Qmult_1_r.
Qed.

Lemma has_value_unique v q1 q2 : has_value v q1 -> has_value v q2 -> (q1 == q2)%Q.
Proof.
  intros (a & q & Ha & Hq & E) (a' & q' & Ha' & Hq' & E').
  rewrite Ha in Ha'. injection Ha' as <-. rewrite Hq in Hq'. injection Hq' as <-.
  by rewrite <- E, <- E'.
Qed.

Lemma has_value_int n : has_value (PyInt n) (inject_Z n).
Proof.
  exists (XFin n 0), (inject_Z n * 2 ^ 0)%Q. repeat split. simpl. apply Qmult_1_r.
Qed.

Lemma has_value_float_1 : has_value (PyFloat float_1) 1.
Proof. eexists _, _. repeat split. Qed.

Lemma has_value_float_0 : has_value (PyFloat float_0) 0.
Proof. eexists _, _. repeat split. Qed.

(** [v == w] holds exactly when the two are numbers of one value, for a
    finite number [w]. *)
Lemma py_eq_value v w q :
  has_value w q -> py_eq v w = true <-> has_value v q.
Proof.
  intros (b & qb & Hb & Hqb & Eb). unfold py_eq. rewrite Hb.
  destruct (num_of v) as [a|] eqn:Ha.
  2:{ split; [done|]. intros (a & ? & ? & _). congruence. }
  destruct b as [| |m2 e2]; try done. injection Hqb as <-.
  destruct a as [|s|m1 e1].
  - split; [done|]. intros (a & q' & Ha' & Hq' & _).
    rewrite Ha in Ha'. by injection Ha' as <-.
  - split; [by destruct s|]. intros (a & q' & Ha' & Hq' & _).
    rewrite Ha in Ha'. by injection Ha' as <-.
  - rewrite xcompare_fin. unfold is_cmp.
    destruct (Qcompare _ _) eqn:E.
    + split; [|done]. intros _. apply Qeq_alt in E.
      exists (XFin m1 e1), (inject_Z m1 * 2 ^ e1)%Q.
      split; [done|]. split; [done|]. exact (Qeq_trans _ _ _ E Eb).
    + split; [done|]. intros (a & q' & Ha' & Hq' & E').
      rewrite Ha in Ha'. injection Ha' as <-. injection Hq' as <-.
      rewrite <- Eb in E'. apply Qeq_alt in E'. congruence.
    + split; [done|]. intros (a & q' & Ha' & Hq' & E').
      rewrite Ha in Ha'. injection Ha' as <-. injection Hq' as <-.
      rewrite <- Eb in E'. apply Qeq_alt in E'. congruence.
Qed.

(** The test of line 85 fails exactly on the numbers of value 0 or 1. *)
Lemma survived_violation_value v :
  survived_violation v = false <-> has_value v 0 \/ has_value v 1.
Proof.
  unfold survived_violation, py_in, survived_values. cbn [existsb].
  rewrite negb_false_iff, orb_false_r, !orb_true_iff.
  rewrite (py_eq_value v (PyInt 0) 0 (has_value_int 0)).
  rewrite (py_eq_value v (PyInt 1) 1 (has_value_int 1)).
  rewrite (py_eq_value v _ 0 has_value_float_0).
  rewrite (py_eq_value v _ 1 has_value_float_1).
  tauto.
Qed.

Lemma has_value_iff v q q' : has_value v q -> has_value v q' <-> (q == q')%Q.
Proof.
  intros Hv. split.
  - intros Hv'. by eapply has_value_unique.
  - intros E. destruct Hv as (a & p & Ha & Hp & Hq).
    exists a, p. split; [done|]. split; [done|]. exact (Qeq_trans _ _ _ Hq E).
Qed.

Lemma survived_violation_same_value v v' q :
  has_value v q -> has_value v' q -> survived_violation v = survived_violation v'.
Proof.
  intros Hv Hv'.
  pose proof (survived_violation_value v) as H.
  pose proof (survived_violation_value v') as H'.
  rewrite !(has_value_iff v q) in H by done.
  rewrite !(has_value_iff v' q) in H' by done.
  destruct (survived_violation v), (survived_violation v'); try done.
  - apply H. by apply H'.
  - symmetry. apply H'. by apply H.
Qed.

Lemma py_lt_value v q n :
  has_value v q -> py_lt v (PyInt n) = true <-> (q < inject_Z n)%Q.
Proof.
  intros (a & q' & Ha & Hq & E). unfold py_lt. rewrite Ha. cbn [num_of].
  rewrite (xcompare_int _ _ _ Hq), (Qcompare_comp _ _ E _ _ (Qeq_refl _)).
  rewrite Qlt_alt. unfold is_cmp. by destruct (Qcompare _ _).
Qed.

Lemma py_gt_value v q n :
  has_value v q -> py_gt v (PyInt n) = true <-> (inject_Z n < q)%Q.
Proof.
  intros (a & q' & Ha & Hq & E). unfold py_gt. rewrite Ha. cbn [num_of].
  rewrite (xcompare_int _ _ _ Hq), (Qcompare_comp _ _ E _ _ (Qeq_refl _)).
  change (inject_Z n < q)%Q with (q > inject_Z n)%Q.
  rewrite Qgt_alt. unfold is_cmp. by destruct (Qcompare _ _).
Qed.

(** Every value [isinstance] lets through is a number, so the two order
    tests that follow it cannot raise. *)
Lemma isinstance_orderable v :
  isinstance_int_float v = true -> exists a, num_of v = Some a.
Proof. destruct v; simpl; try done; by eexists. Qed.

(** On an [int] or a [float] that is present, the test of line 97 fails
    exactly inside the closed interval from 0 to 120. *)
Lemma age_violation_value v :
  isinstance_int_float v = true ->
  isna v = false ->
  age_violation v = false <-> exists q, has_value v q /\ (0 <= q)%Q /\ (q <= 120)%Q.
Proof.
  intros Hi Hna. unfold age_violation. rewrite Hi. cbn [negb orb].
  destruct (isinstance_orderable v Hi) as [a Ha].
  destruct a as [|s|m e].
  - destruct v as [| | |[]| |]; simpl in *; try done; destruct s; discriminate.
  - split.
    + unfold py_lt, py_gt. rewrite Ha. by destruct s.
    + intros (q & (a & q' & Ha' & Hq' & _) & _). rewrite Ha in Ha'.
      by injection Ha' as <-.
  - assert (has_value v (inject_Z m * 2 ^ e)) as Hv.
    { exists (XFin m e), (inject_Z m * 2 ^ e)%Q. repeat split; done. }
    pose proof (py_lt_value v _ 0 Hv) as Hlt.
    pose proof (py_gt_value v _ 120 Hv) as Hgt.
    rewrite orb_false_iff. split.
    + intros [H1 H2]. exists (inject_Z m * 2 ^ e)%Q. split; [done|].
      split.
      * apply Qnot_lt_le. intros H. apply Hlt in H. congruence.
      * apply Qnot_lt_le. intros H. apply Hgt in H. congruence.
    + intros (q & Hq & H0 & H120).
      pose proof (has_value_unique _ _ _ Hv Hq) as E.
      split.
      * destruct (py_lt v (PyInt 0)); [|done].
        exfalso. apply (Qlt_not_le _ _ (proj1 Hlt eq_refl)). by rewrite E.
      * destruct (py_gt v (PyInt 120)); [|done].
        exfalso. apply (Qlt_not_le _ _ (proj1 Hgt eq_refl)). by rewrite E.
Qed.

(** ** The schema check *)

Lemma labels_strip_columns df : labels (strip_columns df) = map strip (labels df).
Proof. unfold labels, strip_columns; simpl. by rewrite !map_map. Qed.

Lemma dict_contains_insert (m : gmap string string) a b k :
  dict_contains (<[a := b]> m) k = String.eqb a k || dict_contains m k.
Proof.
  unfold dict_contains. destruct (String.eqb_spec a k) as [->|Hne]; simpl.
  - by rewrite lookup_insert_eq.
  - by rewrite lookup_insert_ne.
Qed.

Lemma fold_column_map_contains cols (m : gmap string string) k :
  dict_contains (fold_left (fun m col => <[lower col := col]> m) cols m) k =
  existsb (fun l => String.eqb (lower l) k) cols || dict_contains m k.
Proof.
  revert m. induction cols as [|c cols IH]; intros m; simpl; [done|].
  rewrite IH, dict_contains_insert.
  destruct (String.eqb (lower c) k), (existsb _ cols); reflexivity.
Qed.

Lemma build_column_map_contains cols k :
  dict_contains (build_column_map cols) k =
  existsb (fun l => String.eqb (lower l) k) cols.
Proof.
  unfold build_column_map. rewrite fold_column_map_contains.
  unfold dict_contains. rewrite lookup_empty. apply orb_false_r.
Qed.

Lemma column_map_contains df k :
  dict_contains (column_map_of df) k = column_present df k.
Proof.
  unfold column_map_of, column_present.
  rewrite build_column_map_contains, labels_strip_columns.
  induction (labels df) as [|l ls IH]; simpl; [done|]. by rewrite IH.
Qed.

Lemma missing_cols_absent df :
  missing_cols_of (column_map_of df) = absent_columns df.
Proof.
  unfold missing_cols_of, absent_columns.
  apply filter_ext. intros k. by rewrite column_map_contains.
Qed.

Lemma fold_column_map_lookup cols (m : gmap string string) k c :
  fold_left (fun m col => <[lower col := col]> m) cols m !! k = Some c ->
  (In c cols /\ lower c = k) \/ m !! k = Some c.
Proof.
  revert m. induction cols as [|a cols IH]; intros m H; simpl in *; [by right|].
  destruct (IH _ H) as [[Hin Hk]|Hm]; [left; by auto|].
  destruct (decide (lower a = k)) as [<-|Hne].
  - rewrite lookup_insert_eq in Hm. injection Hm as <-. left; by auto.
  - rewrite lookup_insert_ne in Hm by done. by right.
Qed.

Lemma column_map_lookup df k c :
  column_map_of df !! k = Some c -> In c (labels (strip_columns df)) /\ lower c = k.
Proof.
  intros H. apply fold_column_map_lookup in H as [H|H]; [done|].
  by rewrite lookup_empty in H.
Qed.

Lemma dtype_of_In df c : In c (labels df) -> exists d, dtype_of df c = Some d.
Proof.
  unfold labels, dtype_of. induction (columns df) as [|x cs IH]; simpl; [done|].
  intros [<-|Hin].
  - rewrite String.eqb_refl. simpl. by eexists.
  - destruct (String.eqb (label x) c); simpl; [by eexists | by apply IH].
Qed.

Lemma dict_contains_lookup (m : gmap string string) k :
  dict_contains m k = true <-> exists c, m !! k = Some c.
Proof.
  unfold dict_contains. destruct (m !! k); split; try done; [by eexists|].
  by intros [? ?].
Qed.

Lemma absent_nil_bound df :
  absent_columns df = [] <-> exists sc ac, bound df sc ac.
Proof.
  rewrite <- missing_cols_absent. unfold missing_cols_of, required_cols, bound.
  simpl.
  destruct (dict_contains (column_map_of df) "age") eqn:Ha;
    destruct (dict_contains (column_map_of df) "survived") eqn:Hs; simpl;
    split; try done.
  - intros _. apply dict_contains_lookup in Ha as [ac Ha].
    apply dict_contains_lookup in Hs as [sc Hs]. by exists sc, ac.
  - intros (sc & ac & Hsc & _).
    assert (dict_contains (column_map_of df) "survived" = true) as E
      by (apply dict_contains_lookup; eauto). congruence.
  - intros (sc & ac & _ & Hac).
    assert (dict_contains (column_map_of df) "age" = true) as E
      by (apply dict_contains_lookup; eauto). congruence.
  - intros (sc & ac & _ & Hac).
    assert (dict_contains (column_map_of df) "age" = true) as E
      by (apply dict_contains_lookup; eauto). congruence.
Qed.

Lemma bound_has_dtype df sc ac :
  bound df sc ac ->
  (exists d, dtype_of (strip_columns df) sc = Some d) /\
  (exists d, dtype_of (strip_columns df) ac = Some d).
Proof.
  intros [Hs Ha]. split; apply dtype_of_In; eapply column_map_lookup; eauto.
Qed.

(** ** The stages of the routine *)

Section RoutineFacts.

Variable read_csv : string -> string + DataFrame.
Variable db_fault : db_call -> option string.

Local Abbreviation run := (validate_and_insert_titanic read_csv db_fault).

Lemma load_csv_failure csv st e w :
  read_csv csv = inl e ->
  load_csv read_csv csv st w = (SysExit 1, emit [MsgLoadError e] w).
Proof.
  intros H. unfold load_csv, try_except, bind, call_read_csv. by rewrite H.
Qed.

Lemma load_csv_ok csv st df w :
  read_csv csv = inr df ->
  load_csv read_csv csv st w =
  (Returned (df, set_total_rows (len_df df) st),
   emit [MsgLoaded (len_df df) csv] w).
Proof.
  intros H. unfold load_csv, try_except, bind, call_read_csv. by rewrite H.
Qed.

Lemma run_load_failure csv db tbl e w :
  read_csv csv = inl e ->
  run csv db tbl w = (SysExit 1, emit [MsgLoadError e] w).
Proof.
  intros H. unfold validate_and_insert_titanic, bind.
  by rewrite (load_csv_failure _ _ _ _ H).
Qed.

Lemma run_missing_columns csv db tbl df w :
  read_csv csv = inr df ->
  absent_columns df <> [] ->
  run csv db tbl w =
  (SysExit 1,
   emit [MsgLoaded (len_df df) csv;
         MsgMissingColumns (absent_columns df);
         MsgAvailableColumns (map strip (labels df))] w).
Proof.
  intros H Habs. unfold validate_and_insert_titanic, bind at 1.
  rewrite (load_csv_ok _ _ _ _ H).
  fold (column_map_of df). rewrite missing_cols_absent.
  destruct (absent_columns df) as [|m ms] eqn:E; [done|].
  unfold bind, print, sys_exit; simpl.
  rewrite labels_strip_columns. unfold emit; simpl.
  by rewrite <- !app_assoc.
Qed.

Lemma run_schema_ok csv db tbl df sc ac w :
  read_csv csv = inr df ->
  bound df sc ac ->
  run csv db tbl w =
  (let df' := strip_columns df in
   let stats := set_total_rows (len_df df) stats0 in
   let* survived_dtype := column_dtype df' sc in
   if negb (is_numeric_dtype survived_dtype) then
     print (MsgSurvivedNotNumeric survived_dtype) ;;; sys_exit 1
   else
   let* age_dtype := column_dtype df' ac in
   if negb (is_numeric_dtype age_dtype) then
     print (MsgAgeNotNumeric age_dtype) ;;; sys_exit 1
   else
   print MsgTypesOk ;;;
   let* (stats, valid_rows) :=
     for_each (loop_body sc ac) (iterrows df') (stats, []) in
   print MsgValidationComplete ;;;
   print (MsgValidRows (len valid_rows)) ;;;
   print (MsgSkippedRows (skipped_rows stats)) ;;;
   if len valid_rows =? 0 then
     print MsgNoValidRows ;;; sys_exit 1
   else
   let* stats := insert_valid_rows db_fault db tbl valid_rows stats in
   ret stats)%py
  (emit [MsgLoaded (len_df df) csv; MsgSchemaOk] w).
Proof.
  intros H Hb.
  assert (absent_columns df = []) as Habs by (apply absent_nil_bound; eauto).
  destruct Hb as [Hs Ha].
  unfold validate_and_insert_titanic, bind at 1.
  rewrite (load_csv_ok _ _ _ _ H).
  fold (column_map_of df). rewrite missing_cols_absent, Habs.
  unfold bind at 1. unfold print at 1.
  unfold bind at 1. unfold dict_get at 1. rewrite Ha. unfold ret at 1.
  unfold bind at 1. unfold dict_get at 1. rewrite Hs. unfold ret at 1.
  rewrite emit_emit. reflexivity.
Qed.

Lemma numeric_column_dtype df c :
  numeric_column df c = true ->
  exists d, dtype_of (strip_columns df) c = Some d /\ is_numeric_dtype d = true.
Proof.
  unfold numeric_column. destruct (dtype_of _ c) as [d|]; [|done]. by exists d.
Qed.

Lemma run_survived_not_numeric csv db tbl df sc ac w :
  read_csv csv = inr df ->
  bound df sc ac ->
  numeric_column df sc = false ->
  exists d,
    run csv db tbl w =
    (SysExit 1,
     emit [MsgLoaded (len_df df) csv; MsgSchemaOk; MsgSurvivedNotNumeric d] w).
Proof.
  intros H Hb Hn. rewrite (run_schema_ok _ _ _ _ _ _ _ H Hb).
  destruct (bound_has_dtype _ _ _ Hb) as [[d Hd] _].
  unfold numeric_column in Hn. rewrite Hd in Hn.
  exists d. cbv zeta. unfold bind at 1, column_dtype at 1.
  rewrite Hd. unfold ret at 1. rewrite Hn. cbn [negb].
  unfold bind, print, sys_exit. by rewrite emit_emit.
Qed.

Lemma run_age_not_numeric csv db tbl df sc ac w :
  read_csv csv = inr df ->
  bound df sc ac ->
  numeric_column df sc = true ->
  numeric_column df ac = false ->
  exists d,
    run csv db tbl w =
    (SysExit 1,
     emit [MsgLoaded (len_df df) csv; MsgSchemaOk; MsgAgeNotNumeric d] w).
Proof.
  intros H Hb Hs Hn. rewrite (run_schema_ok _ _ _ _ _ _ _ H Hb).
  destruct (numeric_column_dtype _ _ Hs) as (ds & Hds & Hnum).
  destruct (bound_has_dtype _ _ _ Hb) as [_ [d Hd]].
  unfold numeric_column in Hn. rewrite Hd in Hn.
  exists d. cbv zeta. unfold bind at 1, column_dtype at 1.
  rewrite Hds. unfold ret at 1. rewrite Hnum. cbn [negb].
  unfold bind at 1, column_dtype at 1.
  rewrite Hd. unfold ret at 1. rewrite Hn. cbn [negb].
  unfold bind, print, sys_exit. by rewrite emit_emit.
Qed.

Lemma skipped_rows_record ws st :
  skipped_rows (record_warnings ws st) = skipped_rows st + len ws.
Proof. reflexivity. Qed.

Lemma run_validated csv db tbl df sc ac w :
  read_csv csv = inr df ->
  bound df sc ac ->
  numeric_column df sc = true ->
  numeric_column df ac = true ->
  run csv db tbl w =
  let w' := emit (validation_output csv df sc ac) w in
  let stats := record_warnings (frame_warnings df sc ac)
                 (set_total_rows (len_df df) stats0) in
  if len (accepted_rows df sc ac) =? 0 then
    (SysExit 1, emit [MsgNoValidRows] w')
  else insert_valid_rows db_fault db tbl (accepted_rows df sc ac) stats w'.
Proof.
  intros H Hb Hs Ha. rewrite (run_schema_ok _ _ _ _ _ _ _ H Hb).
  destruct (numeric_column_dtype _ _ Hs) as (ds & Hds & Hnums).
  destruct (numeric_column_dtype _ _ Ha) as (da & Hda & Hnuma).
  cbv zeta. unfold bind at 1, column_dtype at 1.
  rewrite Hds. unfold ret at 1. rewrite Hnums. cbn [negb].
  unfold bind at 1, column_dtype at 1.
  rewrite Hda. unfold ret at 1. rewrite Hnuma. cbn [negb].
  unfold bind at 1, print at 1.
  unfold bind at 1. rewrite for_each_loop_body.
  fold (frame_warnings df sc ac). cbn [app]. fold (accepted_rows df sc ac).
  unfold bind at 1, print at 1. unfold bind at 1, print at 1.
  unfold bind at 1, print at 1.
  rewrite skipped_rows_record. cbn [skipped_rows set_total_rows stats0].
  rewrite Z.add_0_l, !emit_emit.
  unfold validation_output. cbn [app]. rewrite <- !app_assoc. cbn [app].
  destruct (len (accepted_rows df sc ac) =? 0).
  - unfold bind, print, sys_exit. rewrite emit_emit. cbn [app].
    by rewrite <- app_assoc.
  - unfold bind.
    destruct (insert_valid_rows _ _ _ _ _ _) as [[st| |] w1]; reflexivity.
Qed.

Lemma log_log a b w : log_calls b (log_calls a w) = log_calls (a ++ b) w.
Proof. unfold log_calls; simpl. by rewrite app_assoc. Qed.

Lemma insert_valid_rows_ok db tbl rows st w :
  sink_ok db_fault tbl rows = true ->
  insert_valid_rows db_fault db tbl rows st w =
  (Returned (set_inserted_rows (len rows) st),
   emit [MsgInserted (len rows) db tbl]
     (log_calls [GetConn "my_sqlite_conn"; ToSql tbl rows; Commit] w)).
Proof.
  unfold sink_ok, no_fault. intros Hok.
  destruct (db_fault (GetConn _)) eqn:E1; [done|].
  destruct (db_fault (ToSql _ _)) eqn:E2; [done|].
  destruct (db_fault Commit) eqn:E3; [done|].
  unfold insert_valid_rows, try_except, bind, call_db.
  rewrite E1, E2, E3. unfold print, ret. by rewrite !log_log.
Qed.

Lemma insert_valid_rows_fault db tbl rows st w :
  sink_ok db_fault tbl rows = false ->
  exists e cs,
    insert_valid_rows db_fault db tbl rows st w =
    (SysExit 1, emit [MsgInsertError e] (log_calls cs w)).
Proof.
  unfold sink_ok, no_fault. intros Hok.
  unfold insert_valid_rows, try_except, bind, call_db.
  destruct (db_fault (GetConn _)) as [e|] eqn:E1.
  { exists e, [GetConn "my_sqlite_conn"]. reflexivity. }
  destruct (db_fault (ToSql _ _)) as [e|] eqn:E2.
  { exists e, [GetConn "my_sqlite_conn"; ToSql tbl rows].
    unfold print, sys_exit. by rewrite log_log. }
  destruct (db_fault Commit) as [e|] eqn:E3; [|done].
  exists e, [GetConn "my_sqlite_conn"; ToSql tbl rows; Commit].
  unfold print, sys_exit. by rewrite !log_log.
Qed.

End RoutineFacts.


(** ** Rows as dictionaries *)

Lemma series_get_set_eq row c v : series_get (series_set row c v) c = v.
Proof.
  induction row as [|[l x] row IH]; simpl.
  - by rewrite String.eqb_refl.
  - destruct (String.eqb l c) eqn:E; simpl; rewrite E; [done | apply IH].
Qed.

Lemma series_get_set_ne row c c' v :
  c <> c' -> series_get (series_set row c v) c' = series_get row c'.
Proof.
  intros Hne. induction row as [|[l x] row IH]; simpl.
  - by destruct (String.eqb_spec c c').
  - destruct (String.eqb_spec l c) as [->|Hl]; simpl.
    + by destruct (String.eqb_spec c c').
    + by rewrite IH.
Qed.

Lemma cleaned_row_survived sc ac row :
  sc <> ac ->
  series_get (cleaned_row sc ac row) sc = clean (series_get row sc).
Proof.
  intros Hne. unfold cleaned_row.
  rewrite series_get_set_ne by congruence. apply series_get_set_eq.
Qed.

Lemma cleaned_row_age sc ac row :
  series_get (cleaned_row sc ac row) ac = clean (series_get row ac).
Proof. unfold cleaned_row. apply series_get_set_eq. Qed.


(** ** Counting diagnostics *)

Lemma survived_warnings_length row_num v :
  length (survived_warnings row_num v) =
  Nat.b2n (field_violated survived_violation v).
Proof. unfold survived_warnings. by destruct (field_violated _ v). Qed.

Lemma age_warnings_length row_num v :
  length (age_warnings row_num v) = Nat.b2n (field_violated age_violation v).
Proof. unfold age_warnings. by destruct (field_violated _ v). Qed.

Lemma row_warnings_length sc ac ir :
  length (row_warnings sc ac ir) =
  (Nat.b2n (field_violated survived_violation (series_get (snd ir) sc)) +
   Nat.b2n (field_violated age_violation (series_get (snd ir) ac)))%nat.
Proof.
  unfold row_warnings.
  by rewrite length_app, survived_warnings_length, age_warnings_length.
Qed.

Lemma row_warnings_rejected sc ac ir :
  row_rejected sc ac (snd ir) = true ->
  (1 <= length (row_warnings sc ac ir) <= 2)%nat.
Proof.
  rewrite row_warnings_length. unfold row_rejected.
  destruct (field_violated survived_violation _),
    (field_violated age_violation _); simpl; intros; try done; lia.
Qed.

Lemma row_warnings_accepted sc ac ir :
  row_rejected sc ac (snd ir) = false -> row_warnings sc ac ir = [].
Proof.
  unfold row_rejected, row_warnings, survived_warnings, age_warnings.
  destruct (field_violated survived_violation _),
    (field_violated age_violation _); simpl; intros; done.
Qed.



Lemma enumerate_from_length {A} i (l : list A) :
  length (enumerate_from i l) = length l.
Proof. revert i. induction l as [|x l IH]; intros i; simpl; [done|]. by rewrite IH. Qed.

Lemma total_is_accepted_plus_rejected df sc ac :
  len_df df = len (accepted_rows df sc ac) + len (rejected_rows df sc ac).
Proof.
  unfold len_df, accepted_rows, rejected_rows, len.
  assert (length (records df) = length (iterrows (strip_columns df))) as ->.
  { unfold iterrows. by rewrite enumerate_from_length, length_map. }
  induction (iterrows (strip_columns df)) as [|ir rows IH]; [done|].
  cbn [flat_map List.filter]. rewrite length_app. unfold row_valid at 1.
  destruct (row_rejected sc ac (snd ir)); simpl length; lia.
Qed.

Lemma rejected_le_warnings sc ac rows :
  (length (List.filter (fun ir => row_rejected sc ac (snd ir)) rows) <=
   length (flat_map (row_warnings sc ac) rows))%nat.
Proof.
  induction rows as [|ir rows IH]; simpl; [done|].
  rewrite length_app. destruct (row_rejected sc ac (snd ir)) eqn:E; simpl.
  - pose proof (row_warnings_rejected _ _ _ E). lia.
  - lia.
Qed.

Lemma stats_inv_record ws st : stats_inv st -> stats_inv (record_warnings ws st).
Proof.
  unfold stats_inv, record_warnings; simpl. rewrite len_app. lia.
Qed.

Lemma len_eqb_0 {A} (l : list A) : (len l =? 0) = true <-> l = [].
Proof. unfold len. destruct l; simpl; split; try done. Qed.

Lemma len_eqb_0_false {A} (l : list A) : (len l =? 0) = false <-> l <> [].
Proof. unfold len. destruct l; simpl; split; try done. Qed.

Section Claims.

Variable read_csv : string -> string + DataFrame.
Variable db_fault : db_call -> option string.

Local Abbreviation run := (validate_and_insert_titanic read_csv db_fault).

Lemma run_empty csv db tbl df sc ac w :
  read_csv csv = inr df ->
  bound df sc ac ->
  numeric_column df sc = true ->
  numeric_column df ac = true ->
  accepted_rows df sc ac = [] ->
  run csv db tbl w =
  (SysExit 1, emit (validation_output csv df sc ac ++ [MsgNoValidRows]) w).
Proof.
  intros H Hb Hs Ha He.
  rewrite (run_validated _ _ _ _ _ _ _ _ _ H Hb Hs Ha). cbv zeta.
  rewrite (proj2 (len_eqb_0 _) He). by rewrite emit_emit.
Qed.

Lemma run_success csv db tbl df sc ac w :
  read_csv csv = inr df ->
  bound df sc ac ->
  numeric_column df sc = true ->
  numeric_column df ac = true ->
  accepted_rows df sc ac <> [] ->
  sink_ok db_fault tbl (accepted_rows df sc ac) = true ->
  run csv db tbl w =
  (Returned {| total_rows := len_df df;
               inserted_rows := len (accepted_rows df sc ac);
               skipped_rows := len (frame_warnings df sc ac);
               warnings := frame_warnings df sc ac |},
   emit [MsgInserted (len (accepted_rows df sc ac)) db tbl]
     (log_calls [GetConn "my_sqlite_conn";
                 ToSql tbl (accepted_rows df sc ac); Commit]
        (emit (validation_output csv df sc ac) w))).
Proof.
  intros H Hb Hs Ha He Hk.
  rewrite (run_validated _ _ _ _ _ _ _ _ _ H Hb Hs Ha). cbv zeta.
  rewrite (proj2 (len_eqb_0_false _) He).
  by rewrite (insert_valid_rows_ok _ _ _ _ _ _ Hk).
Qed.

Lemma run_insert_failure csv db tbl df sc ac w :
  read_csv csv = inr df ->
  bound df sc ac ->
  numeric_column df sc = true ->
  numeric_column df ac = true ->
  accepted_rows df sc ac <> [] ->
  sink_ok db_fault tbl (accepted_rows df sc ac) = false ->
  exists e cs,
    run csv db tbl w =
    (SysExit 1,
     emit [MsgInsertError e]
       (log_calls cs (emit (validation_output csv df sc ac) w))).
Proof.
  intros H Hb Hs Ha He Hk.
  rewrite (run_validated _ _ _ _ _ _ _ _ _ H Hb Hs Ha). cbv zeta.
  rewrite (proj2 (len_eqb_0_false _) He).
  apply (insert_valid_rows_fault _ _ _ _ _ _ Hk).
Qed.

Lemma fatal_exits csv db tbl w :
  Fatal read_csv db_fault csv tbl -> fst (run csv db tbl w) = SysExit 1.
Proof.
  intros [e H | df H Habs | df sc ac H Hb [Hn|Hn] | df sc ac H Hb Hs Ha He
         | df sc ac H Hb Hs Ha He Hk].
  - by rewrite (run_load_failure _ _ _ _ _ _ _ H).
  - by rewrite (run_missing_columns _ _ _ _ _ _ _ H Habs).
  - destruct (run_survived_not_numeric _ db_fault csv db tbl _ _ _ w H Hb Hn)
      as [d ->]. done.
  - destruct (numeric_column df sc) eqn:Hs.
    + destruct (run_age_not_numeric _ db_fault csv db tbl _ _ _ w H Hb Hs Hn)
        as [d ->]. done.
    + destruct (run_survived_not_numeric _ db_fault csv db tbl _ _ _ w H Hb Hs)
        as [d ->]. done.
  - by rewrite (run_empty _ _ _ _ _ _ _ H Hb Hs Ha He).
  - destruct (run_insert_failure csv db tbl _ _ _ w H Hb Hs Ha He Hk)
      as (e & cs & ->). done.
Qed.

Lemma run_cases csv db tbl w :
  Fatal read_csv db_fault csv tbl \/
  exists st, Success read_csv db_fault csv tbl st /\
             fst (run csv db tbl w) = Returned st.
Proof.
  destruct (read_csv csv) as [e|df] eqn:H; [left; by eapply LoadFailure|].
  destruct (absent_columns df) as [|m ms] eqn:Habs.
  2:{ left. eapply MissingColumns; [done|]. by rewrite Habs. }
  apply absent_nil_bound in Habs as (sc & ac & Hb).
  destruct (numeric_column df sc) eqn:Hs.
  2:{ left. eapply WrongColumnType; eauto. }
  destruct (numeric_column df ac) eqn:Ha.
  2:{ left. eapply WrongColumnType; eauto. }
  destruct (accepted_rows df sc ac) as [|r rs] eqn:He.
  { left. eapply EmptyAccepted; eauto. }
  destruct (sink_ok db_fault tbl (accepted_rows df sc ac)) eqn:Hk.
  2:{ left. eapply InsertFailure; eauto. by rewrite He. }
  right. eexists. split.
  - exists df, sc, ac. repeat (split; [first [done | by rewrite He]|]).
    reflexivity.
  - rewrite (run_success csv db tbl df sc ac w); try done. by rewrite He.
Qed.

(** What the counters get right: a successful run inserts every row it did
    not reject, and [skipped_rows] is never below the number of rejected
    rows. *)
Lemma success_counts csv tbl st :
  Success read_csv db_fault csv tbl st ->
  exists df sc ac,
    read_csv csv = inr df /\ bound df sc ac /\
    total_rows st = inserted_rows st + len (rejected_rows df sc ac) /\
    len (rejected_rows df sc ac) <= skipped_rows st.
Proof.
  intros (df & sc & ac & H & Hb & _ & _ & _ & _ & ->).
  exists df, sc, ac. split; [done|]. split; [done|]. simpl. split.
  - apply total_is_accepted_plus_rejected.
  - unfold len, rejected_rows, frame_warnings.
    apply inj_le, rejected_le_warnings.
Qed.



(** C8. When the checks pass and every row ends with [skip_row] set, the
    run ends through [sys.exit(1)] after printing the no-valid-rows error,
    and no call at all was made on the database. *)
Theorem all_rows_rejected_is_fatal csv db tbl df sc ac w :
  read_csv csv = inr df ->
  bound df sc ac ->
  numeric_column df sc = true ->
  numeric_column df ac = true ->
  Forall (fun ir => row_rejected sc ac (snd ir) = true)
    (iterrows (strip_columns df)) ->
  exists w',
    run csv db tbl w = (SysExit 1, w') /\
    accepted_rows df sc ac = [] /\
    stdout w' = stdout w ++ validation_output csv df sc ac ++ [MsgNoValidRows] /\
    db_calls w' = db_calls w.
Proof.
  intros H Hb Hs Ha Hall.
  assert (accepted_rows df sc ac = []) as He.
  { unfold accepted_rows. induction Hall as [|ir rows Hr _ IH]; [done|].
    simpl. unfold row_valid at 1. by rewrite Hr. }
  eexists. split; [apply (run_empty _ _ _ _ _ _ _ H Hb Hs Ha He)|]. done.
Qed.


(** C10. The number of recorded warnings equals [skipped_rows] wherever
    the loop can be observed: after the Survived branch and after the Age
    branch of an iteration, after any number of iterations, and in the
    statistics a run returns. *)
Theorem warnings_length_is_skipped_rows :
  (forall row_num v st skip w,
      stats_inv st ->
      exists v' st' skip' w',
        validate_survived row_num v st skip w = (Returned (v', st', skip'), w') /\
        stats_inv st') /\
  (forall row_num v st skip w,
      stats_inv st ->
      exists v' st' skip' w',
        validate_age row_num v st skip w = (Returned (v', st', skip'), w') /\
        stats_inv st') /\
  (forall sc ac rows k st vr w,
      stats_inv st ->
      exists st' vr' w',
        for_each (loop_body sc ac) (firstn k rows) (st, vr) w =
        (Returned (st', vr'), w') /\
        stats_inv st') /\
  (forall csv db tbl w st w',
      run csv db tbl w = (Returned st, w') -> stats_inv st).
Proof.
  repeat split.
  - intros. rewrite validate_survived_spec. eexists _, _, _, _.
    split; [done|]. by apply stats_inv_record.
  - intros. rewrite validate_age_spec. eexists _, _, _, _.
    split; [done|]. by apply stats_inv_record.
  - intros. rewrite for_each_loop_body. eexists _, _, _.
    split; [done|]. by apply stats_inv_record.
  - intros csv db tbl w st w' Hrun.
    destruct (run_cases csv db tbl w) as [F|(st' & S & E)].
    + pose proof (fatal_exits csv db tbl w F) as Hx.
      rewrite Hrun in Hx. discriminate.
    + rewrite Hrun in E. injection E as <-.
      destruct S as (df & sc & ac & _ & _ & _ & _ & _ & _ & ->).
      reflexivity.
Qed.

End Claims.


(** ** The claims about one row *)

(** C1, amended. Both field rules are evaluated for every row, whatever
    the other one found: the Survived rule records its diagnostic exactly
    when the Survived value is present and outside the list, the Age rule
    exactly when the Age value is present and fails its test.  A rejected
    row is not kept and records one or two diagnostics, at most one per
    field and Survived first; any other row is kept, cleaned, and records
    none. *)
Theorem every_field_rule_is_evaluated sc ac st vr ir w :
  exists st' vr' w',
    loop_body sc ac (st, vr) ir w = (Returned (st', vr'), w') /\
    warnings st' =
      warnings st ++
      survived_warnings (fst ir + 2) (series_get (snd ir) sc) ++
      age_warnings (fst ir + 2) (series_get (snd ir) ac) /\
    length (row_warnings sc ac ir) =
      (Nat.b2n (field_violated survived_violation (series_get (snd ir) sc)) +
       Nat.b2n (field_violated age_violation (series_get (snd ir) ac)))%nat /\
    if row_rejected sc ac (snd ir)
    then vr' = vr /\ (1 <= length (row_warnings sc ac ir) <= 2)%nat
    else vr' = vr ++ [cleaned_row sc ac (snd ir)] /\ row_warnings sc ac ir = [].
Proof.
  rewrite loop_body_spec. eexists _, _, _. split; [done|]. split; [done|].
  split; [apply row_warnings_length|].
  unfold row_valid. destruct (row_rejected sc ac (snd ir)) eqn:E.
  - split; [apply app_nil_r | by apply row_warnings_rejected].
  - split; [done | by apply row_warnings_accepted].
Qed.

(** C4. A missing value in either field is replaced by an explicit null
    without a diagnostic: the branch yields [None] and leaves [stats],
    [skip_row] and the output as they were.  The other field is still
    evaluated, and it alone decides whether the row is kept; [None] is what
    is written into the cleaned row, whose field then reads as null. *)
Theorem missing_value_is_null_substituted sc ac st vr ir w :
  sc <> ac ->
  (forall row_num v stats skip w0,
      isna v = true ->
      validate_survived row_num v stats skip w0 = (Returned (PyNone, stats, skip), w0) /\
      validate_age row_num v stats skip w0 = (Returned (PyNone, stats, skip), w0)) /\
  (isna (series_get (snd ir) sc) = true ->
   exists st' vr' w',
     loop_body sc ac (st, vr) ir w = (Returned (st', vr'), w') /\
     warnings st' =
       warnings st ++ age_warnings (fst ir + 2) (series_get (snd ir) ac) /\
     row_rejected sc ac (snd ir) =
       field_violated age_violation (series_get (snd ir) ac) /\
     vr' = vr ++ row_valid sc ac ir /\
     clean (series_get (snd ir) sc) = PyNone /\
     isna (series_get (cleaned_row sc ac (snd ir)) sc) = true) /\
  (isna (series_get (snd ir) ac) = true ->
   exists st' vr' w',
     loop_body sc ac (st, vr) ir w = (Returned (st', vr'), w') /\
     warnings st' =
       warnings st ++ survived_warnings (fst ir + 2) (series_get (snd ir) sc) /\
     row_rejected sc ac (snd ir) =
       field_violated survived_violation (series_get (snd ir) sc) /\
     vr' = vr ++ row_valid sc ac ir /\
     clean (series_get (snd ir) ac) = PyNone /\
     isna (series_get (cleaned_row sc ac (snd ir)) ac) = true).
Proof.
  intros Hne. split; [|split].
  - intros row_num v stats skip w0 Hna.
    unfold validate_survived, validate_age. by rewrite Hna.
  - intros Hna. rewrite loop_body_spec. eexists _, _, _.
    split; [done|]. repeat split.
    + unfold record_warnings, row_warnings, survived_warnings, field_violated.
      simpl. by rewrite Hna.
    + unfold row_rejected, field_violated at 1. by rewrite Hna.
    + unfold clean. by rewrite Hna.
    + rewrite cleaned_row_survived by done. unfold clean. by rewrite Hna.
  - intros Hna. rewrite loop_body_spec. eexists _, _, _.
    split; [done|]. repeat split.
    + unfold record_warnings, row_warnings, age_warnings, field_violated.
      simpl. rewrite Hna. simpl. by rewrite app_nil_r.
    + unfold row_rejected, field_violated at 2. rewrite Hna. simpl.
      apply orb_false_r.
    + unfold clean. by rewrite Hna.
    + rewrite cleaned_row_age. unfold clean. by rewrite Hna.
Qed.

(** C6. A row whose Survived value is present and is not a number of value
    0 or 1 is rejected with the Survived diagnostic, whatever its age.  A
    number of value 0 or 1 passes the test in every representation: the
    verdict depends on the value alone, and the int and the float literals
    0, 0.0, 1 and 1.0 have the values 0 and 1. *)
Theorem survived_outside_set_is_rejected sc ac st vr ir w :
  (isna (series_get (snd ir) sc) = false ->
   ~ has_value (series_get (snd ir) sc) 0 ->
   ~ has_value (series_get (snd ir) sc) 1 ->
   exists st' w',
     loop_body sc ac (st, vr) ir w = (Returned (st', vr), w') /\
     row_rejected sc ac (snd ir) = true /\
     In (InvalidSurvived (fst ir + 2) (series_get (snd ir) sc)) (warnings st')) /\
  (forall v, has_value v 0 \/ has_value v 1 -> survived_violation v = false) /\
  (forall v v' q,
      has_value v q -> has_value v' q ->
      survived_violation v = survived_violation v') /\
  (has_value (PyInt 0) 0 /\ has_value (PyFloat float_0) 0 /\
   has_value (PyInt 1) 1 /\ has_value (PyFloat float_1) 1).
Proof.
  split; [|split; [|split]].
  - intros Hna H0 H1.
    assert (survived_violation (series_get (snd ir) sc) = true) as Hv.
    { destruct (survived_violation _) eqn:E; [done|].
      apply survived_violation_value in E. tauto. }
    assert (field_violated survived_violation (series_get (snd ir) sc) = true)
      as Hf by (unfold field_violated; by rewrite Hna, Hv).
    assert (row_rejected sc ac (snd ir) = true) as Hr
      by (unfold row_rejected; by rewrite Hf).
    rewrite loop_body_spec. eexists _, _. split; [|split; [done|]].
    + unfold row_valid. rewrite Hr. by rewrite app_nil_r.
    + simpl. apply in_or_app. right. unfold row_warnings, survived_warnings.
      rewrite Hf. by left.
  - intros v. apply survived_violation_value.
  - apply survived_violation_same_value.
  - repeat split; first [apply (has_value_int 0) | apply (has_value_int 1)
                        | apply has_value_float_0 | apply has_value_float_1].
Qed.

(** ** Concrete runs *)

Local Open Scope string_scope.

(** C1, as stated, fails: the row [B,-5,2] breaks the Survived rule, and
    the Age rule is evaluated all the same; the row records two
    violations. *)
Lemma two_violations_recorded_for_one_row :
  loop_body "Survived" "Age" (stats0, []) (0, row_two_faults) world0 =
  (Returned ({| total_rows := 0; inserted_rows := 0; skipped_rows := 2;
                warnings := [InvalidSurvived 2 (PyInt 2);
                             InvalidAge 2 (PyInt (-5))] |}, []),
   emit [MsgWarning (InvalidSurvived 2 (PyInt 2));
         MsgWarning (InvalidAge 2 (PyInt (-5)))] world0) /\
  row_rejected "Survived" "Age" row_two_faults = true /\
  ~ (length [InvalidSurvived 2 (PyInt 2); InvalidAge 2 (PyInt (-5))] <= 1)%nat.
Proof. split; [reflexivity|]. split; [reflexivity|]. simpl. lia. Qed.

(** C2 fails on the code: on the five-record example two rows are kept and
    three are rejected, but the fifth breaks both rules and is counted
    twice in [skipped_rows]. *)
Lemma skipped_rows_counts_a_row_twice :
  exists st w,
    validate_and_insert_titanic (reads frame_example) db_sound
      "titanic.csv" "sqlite.db" "titanic" world0 = (Returned st, w) /\
    total_rows st = 5 /\ inserted_rows st = 2 /\ skipped_rows st = 4 /\
    length (rejected_rows frame_example "SURVIVED" "Age") = 3%nat /\
    total_rows st <> inserted_rows st + skipped_rows st.
Proof. eexists _, _. split; [vm_compute; reflexivity|]. by repeat split. Qed.


(** C5 fails on the code: in a file of integer columns only, the ages 120
    and 0 are numpy integers, which [isinstance(age_val, (int, float))]
    turns away; both rows are reported as outside 0-120 and the run ends
    with no valid rows. *)
Lemma boundary_age_rejected_in_integer_frame :
  age_violation (NpInt 120) = true /\
  age_violation (NpInt 0) = true /\
  validate_and_insert_titanic (reads frame_integers) db_sound
    "titanic.csv" "sqlite.db" "titanic" world0 =
  (SysExit 1,
   emit [MsgLoaded 2 "titanic.csv"; MsgSchemaOk; MsgTypesOk;
         MsgWarning (InvalidAge 2 (NpInt 120));
         MsgWarning (InvalidAge 3 (NpInt 0));
         MsgValidationComplete; MsgValidRows 0; MsgSkippedRows 2;
         MsgNoValidRows] world0).
Proof. repeat split. Qed.

(** What the test of line 97 gets right: on [int] and [float] values both
    ends of the interval pass and one unit beyond either end fails. *)
Lemma age_bounds_on_int_and_float :
  map age_violation [PyInt 0; PyInt 120; PyFloat (float_of_Z 0);
                     PyFloat (float_of_Z 120)] = [false; false; false; false] /\
  map age_violation [PyInt (-1); PyInt 121; PyFloat (float_of_Z (-1));
                     PyFloat (float_of_Z 121)] = [true; true; true; true].
Proof. split; reflexivity. Qed.

(** ** Instances *)

Lemma every_field_rule_is_evaluated_witness :
  exists st' vr' w',
    loop_body "Survived" "Age" (stats0, []) (0, row_two_faults) world0 =
    (Returned (st', vr'), w') /\
    length (warnings st') = 2%nat /\ vr' = [].
Proof.
  destruct (every_field_rule_is_evaluated "Survived" "Age" stats0 []
              (0, row_two_faults) world0)
    as (st' & vr' & w' & Hrun & Hw & _ & Hrej).
  exists st', vr', w'. split; [exact Hrun|]. split.
  - rewrite Hw. reflexivity.
  - exact (proj1 Hrej).
Defined.


Lemma missing_value_is_null_substituted_witness :
  isna (series_get row_no_survived "Survived") = true /\
  exists st' vr' w',
    loop_body "Survived" "Age" (stats0, []) (4, row_no_survived) world0 =
    (Returned (st', vr'), w') /\
    warnings st' = [] /\
    clean (series_get row_no_survived "Survived") = PyNone.
Proof.
  split; [reflexivity|].
  destruct (missing_value_is_null_substituted "Survived" "Age" stats0 []
              (4, row_no_survived) world0)
    as (_ & Hs & _); [discriminate|].
  destruct Hs as (st' & vr' & w' & Hrun & Hw & _ & _ & Hc & _); [reflexivity|].
  exists st', vr', w'. split; [exact Hrun|]. split; [exact Hw | exact Hc].
Defined.

Lemma survived_outside_set_is_rejected_witness :
  exists st' w',
    loop_body "Survived" "Age" (stats0, []) (0, row_two_faults) world0 =
    (Returned (st', []), w') /\
    In (InvalidSurvived 2 (PyInt 2)) (warnings st').
Proof.
  destruct (survived_outside_set_is_rejected "Survived" "Age" stats0 []
              (0, row_two_faults) world0) as (Hrow & _).
  destruct Hrow as (st' & w' & Hrun & _ & Hin).
  - reflexivity.
  - rewrite <- (py_eq_value _ (PyInt 0) 0 (has_value_int 0)).
    vm_compute. discriminate.
  - rewrite <- (py_eq_value _ (PyInt 1) 1 (has_value_int 1)).
    vm_compute. discriminate.
  - exists st', w'. split; [exact Hrun | exact Hin].
Defined.


Lemma all_rows_rejected_is_fatal_witness :
  exists w',
    validate_and_insert_titanic (reads frame_all_rejected) db_sound
      "titanic.csv" "sqlite.db" "titanic" world0 = (SysExit 1, w') /\
    accepted_rows frame_all_rejected "Survived" "Age" = [] /\
    stdout w' =
      (stdout world0 ++
       validation_output "titanic.csv" frame_all_rejected "Survived" "Age" ++
       [MsgNoValidRows])%list /\
    db_calls w' = db_calls world0.
Proof.
  apply (all_rows_rejected_is_fatal (reads frame_all_rejected) db_sound
           "titanic.csv" "sqlite.db" "titanic" frame_all_rejected
           "Survived" "Age" world0).
  - reflexivity.
  - split; vm_compute; reflexivity.
  - reflexivity.
  - reflexivity.
  - vm_compute. repeat constructor.
Defined.


Lemma warnings_length_is_skipped_rows_witness :
  exists st w',
    validate_and_insert_titanic (reads frame_example) db_sound
      "titanic.csv" "sqlite.db" "titanic" world0 = (Returned st, w') /\
    stats_inv st.
Proof.
  eexists _, _. split; [vm_compute; reflexivity|].
  eapply (proj2 (proj2 (proj2 (warnings_length_is_skipped_rows
                                 (reads frame_example) db_sound)))
            "titanic.csv" "sqlite.db" "titanic" world0).
  vm_compute. reflexivity.
Defined.

(** * Further properties of the routine *)

Local Close Scope string_scope.

(** ** Resolving the required columns *)




(** ** The stages once more *)

Section MoreStages.

Variable read_csv : string -> string + DataFrame.
Variable db_fault : db_call -> option string.

Local Abbreviation run := (validate_and_insert_titanic read_csv db_fault).


Lemma log_nil w : log_calls [] w = w.
Proof. destruct w; unfold log_calls; simpl. by rewrite app_nil_r. Qed.

Lemma log_emit ms cs w : log_calls cs (emit ms w) = emit ms (log_calls cs w).
Proof. reflexivity. Qed.

(** The insertion block, call by call. *)
Lemma insert_valid_rows_exact db tbl rows st w :
  insert_valid_rows db_fault db tbl rows st w =
  match db_fault (GetConn "my_sqlite_conn") with
  | Some e =>
      (SysExit 1,
       emit [MsgInsertError e] (log_calls [GetConn "my_sqlite_conn"] w))
  | None =>
      match db_fault (ToSql tbl rows) with
      | Some e =>
          (SysExit 1,
           emit [MsgInsertError e]
             (log_calls [GetConn "my_sqlite_conn"; ToSql tbl rows] w))
      | None =>
          match db_fault Commit with
          | Some e =>
              (SysExit 1,
               emit [MsgInsertError e]
                 (log_calls [GetConn "my_sqlite_conn"; ToSql tbl rows; Commit] w))
          | None =>
              (Returned (set_inserted_rows (len rows) st),
               emit [MsgInserted (len rows) db tbl]
                 (log_calls [GetConn "my_sqlite_conn"; ToSql tbl rows; Commit] w))
          end
      end
  end.
Proof.
  unfold insert_valid_rows, try_except, bind, call_db.
  destruct (db_fault (GetConn _)) as [e|]; [done|].
  destruct (db_fault (ToSql _ _)) as [e|].
  { unfold print, sys_exit. by rewrite log_log. }
  destruct (db_fault Commit) as [e|];
    unfold print, sys_exit, ret; by rewrite !log_log.
Qed.

Lemma run_insertion csv db tbl df sc ac w :
  read_csv csv = inr df ->
  bound df sc ac ->
  numeric_column df sc = true ->
  numeric_column df ac = true ->
  accepted_rows df sc ac <> [] ->
  run csv db tbl w =
  insert_valid_rows db_fault db tbl (accepted_rows df sc ac)
    (record_warnings (frame_warnings df sc ac)
       (set_total_rows (len_df df) stats0))
    (emit (validation_output csv df sc ac) w).
Proof.
  intros H Hb Hs Ha He.
  rewrite (run_validated _ _ _ _ _ _ _ _ _ H Hb Hs Ha). cbv zeta.
  by rewrite (proj2 (len_eqb_0_false _) He).
Qed.

(** X4. When a call on the connection raises, the calls after it are not
    made and no statistics are returned: a failed connection means no
    insert, a failed insert means no commit.  The run prints the text of
    the exception and leaves through [sys.exit(1)]. *)
Theorem failed_database_call_stops_the_insertion csv db tbl df sc ac w :
  read_csv csv = inr df ->
  bound df sc ac ->
  numeric_column df sc = true ->
  numeric_column df ac = true ->
  accepted_rows df sc ac <> [] ->
  let rows := accepted_rows df sc ac in
  let w1 := emit (validation_output csv df sc ac) w in
  (forall e,
      db_fault (GetConn "my_sqlite_conn") = Some e ->
      run csv db tbl w =
      (SysExit 1,
       emit [MsgInsertError e] (log_calls [GetConn "my_sqlite_conn"] w1))) /\
  (forall e,
      db_fault (GetConn "my_sqlite_conn") = None ->
      db_fault (ToSql tbl rows) = Some e ->
      run csv db tbl w =
      (SysExit 1,
       emit [MsgInsertError e]
         (log_calls [GetConn "my_sqlite_conn"; ToSql tbl rows] w1))) /\
  (forall e,
      db_fault (GetConn "my_sqlite_conn") = None ->
      db_fault (ToSql tbl rows) = None ->
      db_fault Commit = Some e ->
      run csv db tbl w =
      (SysExit 1,
       emit [MsgInsertError e]
         (log_calls [GetConn "my_sqlite_conn"; ToSql tbl rows; Commit] w1))).
Proof.
  intros H Hb Hs Ha He rows w1.
  pose proof (run_insertion csv db tbl df sc ac w H Hb Hs Ha He) as Hrun.
  rewrite insert_valid_rows_exact in Hrun. fold rows w1 in Hrun.
  split; [|split].
  - intros e E1. by rewrite E1 in Hrun.
  - intros e E1 E2. by rewrite E1, E2 in Hrun.
  - intros e E1 E2 E3. by rewrite E1, E2, E3 in Hrun.
Qed.

(** The result of a run and the calls it makes depend neither on
    [db_path] nor on what was printed or called before. *)
Lemma run_summary csv tbl :
  exists r cs,
    (forall db w,
        exists ms, run csv db tbl w = (r, emit ms (log_calls cs w))) /\
    (cs = [] \/
     exists df sc ac n,
       read_csv csv = inr df /\ bound df sc ac /\
       accepted_rows df sc ac <> [] /\
       (1 <= n <= 3)%nat /\
       cs = firstn n [GetConn "my_sqlite_conn";
                      ToSql tbl (accepted_rows df sc ac); Commit]).
Proof.
  destruct (read_csv csv) as [e|df] eqn:H.
  { exists (SysExit 1), []. split; [|by left]. intros db w. eexists.
    rewrite (run_load_failure _ _ _ _ _ _ _ H). by rewrite log_nil. }
  destruct (absent_columns df) as [|m ms] eqn:Habs.
  2:{ exists (SysExit 1), []. split; [|by left]. intros db w. eexists.
      rewrite (run_missing_columns _ db_fault _ _ _ _ _ H)
        by (by rewrite Habs).
      by rewrite log_nil. }
  apply absent_nil_bound in Habs as (sc & ac & Hb).
  destruct (numeric_column df sc) eqn:Hs.
  2:{ exists (SysExit 1), []. split; [|by left]. intros db w.
      destruct (run_survived_not_numeric _ db_fault csv db tbl _ _ _ w H Hb Hs)
        as [d ->]. eexists. by rewrite log_nil. }
  destruct (numeric_column df ac) eqn:Ha.
  2:{ exists (SysExit 1), []. split; [|by left]. intros db w.
      destruct (run_age_not_numeric _ db_fault csv db tbl _ _ _ w H Hb Hs Ha)
        as [d ->]. eexists. by rewrite log_nil. }
  destruct (accepted_rows df sc ac) as [|r0 rs] eqn:He.
  { exists (SysExit 1), []. split; [|by left]. intros db w. eexists.
    rewrite (run_empty _ db_fault _ _ _ _ _ _ _ H Hb Hs Ha He).
    by rewrite log_nil. }
  assert (accepted_rows df sc ac <> []) as Hne by (by rewrite He).
  clear He.
  pose proof (fun db w => run_insertion csv db tbl df sc ac w H Hb Hs Ha Hne)
    as Hrun.
  destruct (db_fault (GetConn "my_sqlite_conn")) as [e|] eqn:E1;
    [|destruct (db_fault (ToSql tbl (accepted_rows df sc ac))) as [e|] eqn:E2;
      [|destruct (db_fault Commit) as [e|] eqn:E3]].
  - exists (SysExit 1), [GetConn "my_sqlite_conn"]. split.
    + intros db w. eexists. rewrite Hrun, insert_valid_rows_exact, E1.
      by rewrite log_emit, emit_emit.
    + right. exists df, sc, ac, 1%nat. split; [done|]. split; [done|]. split; [done|]. split; [lia|]. reflexivity.
  - exists (SysExit 1),
      [GetConn "my_sqlite_conn"; ToSql tbl (accepted_rows df sc ac)]. split.
    + intros db w. eexists. rewrite Hrun, insert_valid_rows_exact, E1, E2.
      by rewrite log_emit, emit_emit.
    + right. exists df, sc, ac, 2%nat. split; [done|]. split; [done|]. split; [done|]. split; [lia|]. reflexivity.
  - exists (SysExit 1),
      [GetConn "my_sqlite_conn"; ToSql tbl (accepted_rows df sc ac); Commit].
    split.
    + intros db w. eexists. rewrite Hrun, insert_valid_rows_exact, E1, E2, E3.
      by rewrite log_emit, emit_emit.
    + right. exists df, sc, ac, 3%nat. split; [done|]. split; [done|]. split; [done|]. split; [lia|]. reflexivity.
  - eexists (Returned _),
      [GetConn "my_sqlite_conn"; ToSql tbl (accepted_rows df sc ac); Commit].
    split.
    + intros db w. eexists. rewrite Hrun, insert_valid_rows_exact, E1, E2, E3.
      by rewrite log_emit, emit_emit.
    + right. exists df, sc, ac, 3%nat. split; [done|]. split; [done|]. split; [done|]. split; [lia|]. reflexivity.
Qed.


(** X5. The argument [db_path] is never used to reach the database: two
    runs that differ in it alone end the same way, with the same
    statistics, and make the same database calls; only the text of the
    final line differs. *)
Theorem db_path_is_only_printed csv db1 db2 tbl w :
  fst (validate_and_insert_titanic read_csv db_fault csv db1 tbl w) =
  fst (validate_and_insert_titanic read_csv db_fault csv db2 tbl w) /\
  db_calls (snd (validate_and_insert_titanic read_csv db_fault csv db1 tbl w)) =
  db_calls (snd (validate_and_insert_titanic read_csv db_fault csv db2 tbl w)).
Proof.
  destruct (run_summary csv tbl) as (r & cs & Hrun & _).
  destruct (Hrun db1 w) as [ms1 ->]. destruct (Hrun db2 w) as [ms2 ->].
  done.
Qed.

End MoreStages.

(** ** What reaches the table *)







(** ** Row numbers and counters *)





Lemma warnings_count sc ac (rows : list (Z * Series)) :
  length (flat_map (row_warnings sc ac) rows) =
  (length (List.filter (fun ir => row_rejected sc ac (snd ir)) rows) +
   length (List.filter (fun ir => both_violated sc ac (snd ir)) rows))%nat.
Proof.
  induction rows as [|ir rows IH]; simpl; [done|].
  rewrite length_app, IH, row_warnings_length.
  unfold row_rejected, both_violated.
  destruct (field_violated survived_violation _),
    (field_violated age_violation _); simpl; lia.
Qed.

Lemma filter_nil_Forall {A} (p : A -> bool) l :
  List.filter p l = [] <-> Forall (fun x => p x = false) l.
Proof.
  induction l as [|a l IH]; simpl.
  - split; [constructor | done].
  - destruct (p a) eqn:E.
    + split; [done|]. intros H. inversion H; congruence.
    + rewrite IH. split; [by constructor | intros H; by inversion H].
Qed.

Lemma filter_both_le sc ac (rows : list (Z * Series)) :
  (length (List.filter (fun ir => both_violated sc ac (snd ir)) rows) <=
   length (List.filter (fun ir => row_rejected sc ac (snd ir)) rows))%nat.
Proof.
  induction rows as [|ir rows IH]; simpl; [done|].
  unfold row_rejected at 1, both_violated at 1.
  destruct (field_violated survived_violation _),
    (field_violated age_violation _); simpl; lia.
Qed.

Section Counters.

Variable read_csv : string -> string + DataFrame.
Variable db_fault : db_call -> option string.

Local Abbreviation run := (validate_and_insert_titanic read_csv db_fault).

(** X9. In the statistics a run returns, [inserted_rows + skipped_rows]
    is never below [total_rows] and exceeds it by at most the number of
    rejected rows; the two are equal exactly when no row breaks both
    rules. *)
Theorem stats_add_up_unless_a_row_breaks_both_rules csv db tbl w st w' :
  run csv db tbl w = (Returned st, w') ->
  exists df sc ac,
    read_csv csv = inr df /\ bound df sc ac /\
    total_rows st <= inserted_rows st + skipped_rows st /\
    inserted_rows st + skipped_rows st <=
      total_rows st + len (rejected_rows df sc ac) /\
    (total_rows st = inserted_rows st + skipped_rows st <->
     Forall (fun ir => both_violated sc ac (snd ir) = false)
       (iterrows (strip_columns df))).
Proof.
  intros Hrun.
  destruct (run_cases read_csv db_fault csv db tbl w) as [F|(st' & S & E)].
  { pose proof (fatal_exits _ _ _ db _ w F) as Hx. rewrite Hrun in Hx.
    discriminate. }
  rewrite Hrun in E. injection E as <-.
  destruct S as (df & sc & ac & H & Hb & _ & _ & _ & _ & ->).
  exists df, sc, ac. split; [done|]. split; [done|]. simpl.
  pose proof (total_is_accepted_plus_rejected df sc ac) as Ht.
  pose proof (warnings_count sc ac (iterrows (strip_columns df))) as Hc.
  pose proof (filter_both_le sc ac (iterrows (strip_columns df))) as Hle.
  rewrite <- filter_nil_Forall.
  unfold frame_warnings, rejected_rows, len in *.
  destruct (List.filter (fun ir => both_violated sc ac (snd ir)) _) as [|b bs];
    simpl in *.
  - split; [lia|]. split; [lia|]. split; [done|]. lia.
  - split; [lia|]. split; [lia|]. split; [lia | done].
Qed.

End Counters.

(** X10. On a value that is present, the age test of line 97 passes
    exactly when the value is an [int] or a [float] whose exact value lies
    in the closed interval from 0 to 120; fractions inside the interval
    pass, infinities and values of any other class fail. *)
Theorem age_rule_admits_the_closed_interval v :
  isna v = false ->
  age_violation v = false <->
  isinstance_int_float v = true /\
  exists q, has_value v q /\ (0 <= q)%Q /\ (q <= 120)%Q.
Proof.
  intros Hna. destruct (isinstance_int_float v) eqn:Hi.
  - rewrite (age_violation_value v Hi Hna). tauto.
  - unfold age_violation. rewrite Hi. simpl. split; [done | by intros [? _]].
Qed.

(** ** Instances of the further properties *)

Local Open Scope string_scope.

Example last_of_three_age_headers :
  column_map_of frame_three_ages !! "age" = Some "Age" /\
  numeric_column frame_three_ages "Age" = true.
Proof. split; reflexivity. Qed.


Lemma failed_database_call_stops_the_insertion_witness :
  exists e w',
    validate_and_insert_titanic (reads frame_example) db_to_sql_fails
      "titanic.csv" "sqlite.db" "titanic" world0 = (SysExit 1, w') /\
    db_calls w' =
      [GetConn "my_sqlite_conn";
       ToSql "titanic" (accepted_rows frame_example "SURVIVED" "Age")] /\
    List.last (stdout w') MsgSchemaOk = MsgInsertError e.
Proof.
  destruct (failed_database_call_stops_the_insertion (reads frame_example)
              db_to_sql_fails "titanic.csv" "sqlite.db" "titanic"
              frame_example "SURVIVED" "Age" world0)
    as (_ & Hsql & _).
  - reflexivity.
  - split; vm_compute; reflexivity.
  - reflexivity.
  - reflexivity.
  - vm_compute. discriminate.
  - eexists _, _. split.
    + apply Hsql; reflexivity.
    + split; reflexivity.
Defined.



Lemma stats_add_up_unless_a_row_breaks_both_rules_witness :
  exists st w',
    validate_and_insert_titanic (reads frame_example) db_sound
      "titanic.csv" "sqlite.db" "titanic" world0 = (Returned st, w') /\
    total_rows st <= inserted_rows st + skipped_rows st.
Proof.
  eexists _, _. split; [vm_compute; reflexivity|].
  destruct (stats_add_up_unless_a_row_breaks_both_rules (reads frame_example)
              db_sound "titanic.csv" "sqlite.db" "titanic" world0 _ _
              ltac:(vm_compute; reflexivity))
    as (df & sc & ac & _ & _ & Hle & _).
  exact Hle.
Defined.

Lemma age_rule_admits_the_closed_interval_witness :
  age_violation (PyFloat (S754_finite false 1 (-1))) = false.
Proof.
  apply (age_rule_admits_the_closed_interval (PyFloat (S754_finite false 1 (-1)))).
  - reflexivity.
  - split; [reflexivity|]. exists (1 # 2)%Q. split.
    + eexists _, _. split; [reflexivity|]. split; [reflexivity|]. reflexivity.
    + split; vm_compute; discriminate.
Defined.
